(* ===================================================================== *)
(* Local residual of the compositional NCP box model and the 1p2c lens   *)
(* Newton controller.                                                    *)
(*                                                                       *)
(*   dumux/boxmodels/ncp/ncplocalresidual.hh                             *)
(*   appl/lecture/msm/1p2cvs2p/lens_1p2cnewtoncontroller.hh              *)
(*                                                                       *)
(* Both classes are templates over a TypeTag that fixes the Scalar type. *)
(* Modules Ncp and Lens take Scalar to be any real (totally ordered)     *)
(* field, so every arithmetic step in them is exact.  The default Scalar *)
(* of the framework is double: module Double instantiates the one        *)
(* function whose stated result depends on rounding,                     *)
(* phaseNotPresentIneq_, at IEEE 754 binary64.                           *)
(* ===================================================================== *)

From Stdlib Require Import SpecFloat BinInt.
From HB Require Import structures.
From mathcomp Require Import ssreflect ssrfun ssrbool eqtype ssrnat seq choice.
From mathcomp Require Import fintype bigop order ssralg ssrnum ssrint rat matrix.

Set Implicit Arguments.
Unset Strict Implicit.
Unset Printing Implicit Defensive.

Import Order.TTheory GRing.Theory Num.Theory.
Local Open Scope ring_scope.

(* --------------------------------------------------------------------- *)
(* <algorithm> and <cmath> on an ordered Scalar                          *)
(* --------------------------------------------------------------------- *)

Module Std.
Section Std.
Variable Scalar : realFieldType.

(* std::max(a, b) is (a < b) ? b : a *)
Definition max (a b : Scalar) : Scalar := if a < b then b else a.

(* std::min(a, b) is (b < a) ? b : a *)
Definition min (a b : Scalar) : Scalar := if b < a then b else a.

(* std::abs *)
Definition abs (a : Scalar) : Scalar := `|a|.

End Std.
End Std.

(* A counted loop  for (i = 0; i < n; ++i) body  threading a state. *)
Definition for_loop (S : Type) (n : nat) (body : S -> nat -> S) (s : S) : S :=
  foldl body s (iota 0 n).

(* ===================================================================== *)
(* NcpLocalResidual                                                      *)
(* ===================================================================== *)

Module Ncp.
Section Ncp.

Variable Scalar : realFieldType.

(* Number of equations: the length of EqVector, RateVector and
   PrimaryVariables (Dune::FieldVector<Scalar, numEq>). *)
Variable numEq : nat.

Definition EqVector := 'rV[Scalar]_numEq.
Definition RateVector := 'rV[Scalar]_numEq.
Definition PrimaryVariables := 'rV[Scalar]_numEq.

(* Dune::BlockVector<EqVector> *)
Definition LocalBlockVector := seq EqVector.

(* v[k] read at an int index; the C++ read is undefined for k >= numEq,
   the model reads 0 there. *)
Definition entry (v : EqVector) (k : nat) : Scalar :=
  if insub k is Some j then v 0 (j : 'I_numEq) else 0.

(* v[k] = a; the C++ write is undefined for k >= numEq, the model leaves
   v as it is there. *)
Definition set_entry (v : EqVector) (k : nat) (a : Scalar) : EqVector :=
  \row_(j < numEq) (if (j : nat) == k then a else v 0 j).

(* residual[scvIdx][k] = a; no write when scvIdx is not a block of
   residual (undefined in C++). *)
Definition assign (residual : LocalBlockVector) (scvIdx k : nat) (a : Scalar)
  : LocalBlockVector :=
  if (scvIdx < size residual)%N
  then set_nth 0 residual scvIdx (set_entry (nth 0 residual scvIdx) k a)
  else residual.

(* residual[scvIdx][k] *)
Definition block_entry (residual : LocalBlockVector) (scvIdx k : nat) : Scalar :=
  entry (nth 0 residual scvIdx) k.

(* The fluid state of a sub-control volume, as far as the residual reads
   it: fluidState.saturation(phaseIdx), fluidState.moleFraction(phaseIdx,
   compIdx). *)
Record FluidState := mkFluidState {
  saturation : nat -> Scalar;
  moleFraction : nat -> nat -> Scalar
}.

(* External collaborators: the volume variables and the problem. *)
Variable VolumeVariables : Type.
Variable fluidState : VolumeVariables -> FluidState.
Variable extrusionFactor : VolumeVariables -> Scalar.
Variable Problem : Type.

Record SubControlVolume := mkSubControlVolume { volume : Scalar }.

Record FVElementGeometry := mkFVElementGeometry {
  subContVol : nat -> SubControlVolume
}.

Record ElementContext := mkElementContext {
  numScv : nat;
  volVars : nat -> nat -> VolumeVariables;            (* (scvIdx, timeIdx) *)
  evalPointVolVars : nat -> nat -> VolumeVariables;   (* (scvIdx, timeIdx) *)
  fvElemGeom : nat -> FVElementGeometry;              (* (timeIdx) *)
  problem : Problem
}.

(* NcpLocalResidualMass<TypeTag>: static members that update their first
   argument in place; here they map its old value to its new value. *)
Record MassResid := mkMassResid {
  mass_computeStorage : EqVector -> VolumeVariables -> EqVector;
  mass_addPhaseStorage :
    PrimaryVariables -> VolumeVariables -> nat -> PrimaryVariables;
  mass_computeSource :
    RateVector -> ElementContext -> nat -> nat -> RateVector;
  mass_computeFlux :
    RateVector -> ElementContext -> nat -> nat -> RateVector
}.

(* NcpLocalResidualEnergy<TypeTag, enableEnergy> *)
Record EnergyResid := mkEnergyResid {
  energy_computeStorage : EqVector -> VolumeVariables -> EqVector;
  energy_addPhaseStorage :
    PrimaryVariables -> VolumeVariables -> nat -> PrimaryVariables;
  energy_computeSource :
    RateVector -> ElementContext -> nat -> RateVector
}.

(* What the TypeTag resolves to for this class. *)
Record TypeTag := mkTypeTag {
  numPhases : nat;
  numComponents : nat;
  phase0NcpIdx : nat;                                  (* Indices::phase0NcpIdx *)
  massResid : MassResid;
  energyResid : EnergyResid;
  (* elemCtx.problem().source(source, elemCtx, scvIdx, timeIdx) *)
  source : Problem -> RateVector -> ElementContext -> nat -> nat -> RateVector;
  (* BoxLocalResidual<TypeTag>::eval(residual, storageTerm, elemCtx) *)
  ParentType_eval :
    LocalBlockVector -> LocalBlockVector -> ElementContext ->
    LocalBlockVector * LocalBlockVector
}.

Definition setEnergyResid (tt : TypeTag) (e : EnergyResid) : TypeTag :=
  mkTypeTag (numPhases tt) (numComponents tt) (phase0NcpIdx tt)
            (massResid tt) e (@source tt) (@ParentType_eval tt).

Variable tt : TypeTag.

Definition computeStorage (storage : EqVector) (elemCtx : ElementContext)
    (scvIdx timeIdx : nat) : EqVector :=
  let volVars := volVars elemCtx scvIdx timeIdx in
  let storage : EqVector := 0 in
  let storage := mass_computeStorage (massResid tt) storage volVars in
  let storage := energy_computeStorage (energyResid tt) storage volVars in
  storage.

Definition addPhaseStorage (storage : EqVector) (elemCtx : ElementContext)
    (phaseIdx : nat) : EqVector :=
  for_loop (numScv elemCtx) (fun storage scvIdx =>
    let tmp : PrimaryVariables := 0 in
    let tmp := mass_addPhaseStorage (massResid tt) tmp
                 (volVars elemCtx scvIdx 0%N) phaseIdx in
    let tmp := energy_addPhaseStorage (energyResid tt) tmp
                 (volVars elemCtx scvIdx 0%N) phaseIdx in
    let tmp := (extrusionFactor (volVars elemCtx scvIdx 0%N) *
                volume (subContVol (fvElemGeom elemCtx 0%N) scvIdx)) *: tmp in
    storage + tmp) storage.

Definition computeSource (source0 : RateVector) (elemCtx : ElementContext)
    (scvIdx timeIdx : nat) : RateVector :=
  let source1 := source tt (problem elemCtx) source0 elemCtx scvIdx timeIdx in
  let tmp : RateVector := 0 in
  let tmp := mass_computeSource (massResid tt) tmp elemCtx scvIdx timeIdx in
  source1 + tmp.

Definition computeFlux (flux : RateVector) (elemCtx : ElementContext)
    (scvfIdx timeIdx : nat) : RateVector :=
  let flux : RateVector := 0 in
  mass_computeFlux (massResid tt) flux elemCtx scvfIdx timeIdx.

Definition phasePresentIneq_ (fs : FluidState) (phaseIdx : nat) : Scalar :=
  saturation fs phaseIdx.

Definition phaseNotPresentIneq_ (fs : FluidState) (phaseIdx : nat) : Scalar :=
  for_loop (numComponents tt)
    (fun a i => a - moleFraction fs phaseIdx i) 1.

Definition phaseNcp_ (elemCtx : ElementContext) (scvIdx timeIdx phaseIdx : nat)
  : Scalar :=
  let fsEval := fluidState (evalPointVolVars elemCtx scvIdx timeIdx) in
  let fs := fluidState (volVars elemCtx scvIdx timeIdx) in
  let aEval := phaseNotPresentIneq_ fsEval phaseIdx in
  let bEval := phasePresentIneq_ fsEval phaseIdx in
  if aEval > bEval then phasePresentIneq_ fs phaseIdx
  else phaseNotPresentIneq_ fs phaseIdx.

Definition eval (residual storageTerm : LocalBlockVector)
    (elemCtx : ElementContext) : LocalBlockVector * LocalBlockVector :=
  let: (residual, storageTerm) :=
    ParentType_eval tt residual storageTerm elemCtx in
  let residual :=
    for_loop (numScv elemCtx) (fun residual scvIdx =>
      for_loop (numPhases tt) (fun residual phaseIdx =>
        assign residual scvIdx (phase0NcpIdx tt + phaseIdx)
               (phaseNcp_ elemCtx scvIdx 0%N phaseIdx)) residual) residual in
  (residual, storageTerm).

End Ncp.
End Ncp.

(* ===================================================================== *)
(* LensOnePTwoCNewtonController                                          *)
(* ===================================================================== *)

Module Lens.
Section Lens.

Variable Scalar : realFieldType.

(* Length of the primary variables of a degree of freedom, and the two
   positions Indices::konti and Indices::transport in them. *)
Variable numEq : nat.
Variables konti transport : 'I_numEq.

Definition PrimaryVariables := 'rV[Scalar]_numEq.

(* The solution vector behind u: one block of primary variables per
   degree of freedom. *)
Definition SolutionFunction := seq PrimaryVariables.

(* Entry idx of block i of a solution; the C++ read is undefined for
   i >= size, the model reads 0 there. *)
Definition at_ (u : SolutionFunction) (i : nat) (idx : 'I_numEq) : Scalar :=
  (nth 0 u i) 0 idx.

(* The floating literals of the source as field elements. *)
Definition lit_1e3 : Scalar := 1000%:R.
Definition lit_1em3 : Scalar := 1000%:R^-1.
Definition lit_1e100 : Scalar := 10%:R ^+ 100.
Definition lit_1em7 : Scalar := (10%:R ^+ 7)^-1.

(* NewtonController<TypeTag>, the base class: its state and the members
   this class calls.  The base newtonEndStep takes u and uOld by
   reference and only reads them. *)
Variable ParentType : Type.

Record ParentMembers := mkParentMembers {
  tolerance_ : ParentType -> Scalar;
  setRelTolerance : Scalar -> ParentType -> ParentType;
  setTargetSteps : nat -> ParentType -> ParentType;
  setMaxSteps : nat -> ParentType -> ParentType;
  ParentType_newtonEndStep :
    ParentType -> SolutionFunction -> SolutionFunction -> ParentType;
  ParentType_suggestTimeStepSize : ParentType -> Scalar -> Scalar
}.

Variable base : ParentMembers.

Record LensOnePTwoCNewtonController := mkController {
  parent : ParentType;
  relDefect_ : Scalar;
  maxTimeStepSize_ : Scalar
}.

(* The constructor.  parent0 is the default-constructed base object and
   IPP_MaxTimeStepSize the value read from the interface file. *)
Definition construct (parent0 : ParentType) (IPP_MaxTimeStepSize : Scalar)
  : LensOnePTwoCNewtonController :=
  let p := setRelTolerance base lit_1em7 parent0 in
  let p := setTargetSteps base 9 p in
  let p := setMaxSteps base 18 p in
  {| parent := p;
     relDefect_ := lit_1e100;
     maxTimeStepSize_ := IPP_MaxTimeStepSize |}.

(* One pass of the loop body of newtonEndStep for degree of freedom i. *)
Definition endStep_body (u uOld : SolutionFunction)
    (relDefect : Scalar) (i : nat) : Scalar :=
  let normP := Std.max lit_1e3 (Std.abs (at_ u i konti)) in
  let normP := Std.max normP (Std.abs (at_ uOld i konti)) in
  let normTrans := Std.max lit_1em3 (Std.abs (at_ u i transport)) in
  let normTrans := Std.max normTrans (Std.abs (at_ uOld i transport)) in
  let relDefect :=
    Std.max relDefect (Std.abs (at_ u i konti - at_ uOld i konti) / normP) in
  let relDefect :=
    Std.max relDefect
            (Std.abs (at_ u i transport - at_ uOld i transport) / normTrans) in
  relDefect.

Definition newtonEndStep (c : LensOnePTwoCNewtonController)
    (u uOld : SolutionFunction) : LensOnePTwoCNewtonController :=
  let p := ParentType_newtonEndStep base (parent c) u uOld in
  let relDefect : Scalar := 0 in
  let relDefect := for_loop (size u) (endStep_body u uOld) relDefect in
  {| parent := p;
     relDefect_ := relDefect;
     maxTimeStepSize_ := maxTimeStepSize_ c |}.

(* const member: the controller is only read *)
Definition suggestTimeStepSize (c : LensOnePTwoCNewtonController)
    (oldTimeStep : Scalar) : Scalar :=
  Std.min (maxTimeStepSize_ c)
          (ParentType_suggestTimeStepSize base (parent c) oldTimeStep).

(* non-const member: returns the answer and the controller after the call *)
Definition newtonConverged (c : LensOnePTwoCNewtonController)
  : bool * LensOnePTwoCNewtonController :=
  (relDefect_ c <= tolerance_ base (parent c), c).

(* Controller states that arise from the constructor by calls of the
   members.  newtonEndStep is called with two solutions on the same set
   of degrees of freedom. *)
Inductive reachable : LensOnePTwoCNewtonController -> Prop :=
| reach_construct parent0 ipp :
    reachable (construct parent0 ipp)
| reach_newtonEndStep c u uOld :
    reachable c -> size uOld = size u -> reachable (newtonEndStep c u uOld)
| reach_newtonConverged c :
    reachable c -> reachable (newtonConverged c).2.

(* --- the relative defect in the words of the specification ----------- *)

Definition normP (u uOld : SolutionFunction) (i : nat) : Scalar :=
  Num.max lit_1e3 (Num.max `|at_ u i konti| `|at_ uOld i konti|).

Definition normTrans (u uOld : SolutionFunction) (i : nat) : Scalar :=
  Num.max lit_1em3 (Num.max `|at_ u i transport| `|at_ uOld i transport|).

Definition defectP (u uOld : SolutionFunction) (i : nat) : Scalar :=
  `|at_ u i konti - at_ uOld i konti| / normP u uOld i.

Definition defectTrans (u uOld : SolutionFunction) (i : nat) : Scalar :=
  `|at_ u i transport - at_ uOld i transport| / normTrans u uOld i.

(* the largest of all defectP i and defectTrans i, i < size u;
   0 when there is no degree of freedom *)
Definition relDefect_spec (u uOld : SolutionFunction) : Scalar :=
  \big[Num.max/0]_(0 <= i < size u)
     Num.max (defectP u uOld i) (defectTrans u uOld i).

End Lens.
End Lens.

(* ===================================================================== *)
(* A concrete configuration                                              *)
(* ===================================================================== *)

Module Demo.

(* a two-phase, two-component configuration over the rationals: two
   component balances followed by the two NCP rows *)
Definition numEq : nat := 4.
Definition FluidState := Ncp.FluidState rat.

Definition fs_tie : FluidState :=
  Ncp.mkFluidState (fun _ => 1 / 2%:R) (fun _ _ => 1 / 4%:R).
Definition fs_open : FluidState :=
  Ncp.mkFluidState (fun _ => 1 / 4%:R) (fun _ _ => 1 / 4%:R).
Definition fs_full : FluidState :=
  Ncp.mkFluidState (fun _ => 3%:R / 4%:R) (fun _ _ => 1 / 2%:R).

Definition massResid : Ncp.MassResid rat numEq FluidState unit :=
  Ncp.mkMassResid
    (fun storage _ => storage + const_mx 1)
    (fun tmp _ _ => tmp + const_mx 1)
    (fun tmp _ _ _ => tmp + const_mx 2%:R)
    (fun flux _ _ _ => flux + const_mx 3%:R).

Definition energyResid : Ncp.EnergyResid rat numEq FluidState unit :=
  Ncp.mkEnergyResid
    (fun storage _ => storage + const_mx 5%:R)
    (fun tmp _ _ => tmp + const_mx 5%:R)
    (fun tmp _ _ => tmp + const_mx 7%:R).

Definition typeTag : Ncp.TypeTag rat numEq FluidState unit :=
  Ncp.mkTypeTag 2 2 2 massResid energyResid
    (fun _ _ _ _ _ => const_mx 1)
    (fun _ _ elemCtx =>
       (nseq (Ncp.numScv elemCtx) (const_mx 9%:R),
        nseq (Ncp.numScv elemCtx) (const_mx 1))).

Definition geometry : Ncp.FVElementGeometry rat :=
  Ncp.mkFVElementGeometry (fun _ => Ncp.mkSubControlVolume (1 / 2%:R)).

(* evaluation point: sub-control volume 0 decides for "present", the
   others are exactly balanced *)
Definition elemCtx : Ncp.ElementContext rat FluidState unit :=
  Ncp.mkElementContext 2
    (fun _ _ => fs_full)
    (fun scvIdx _ => if scvIdx is 0%N then fs_open else fs_tie)
    (fun _ => geometry) tt.

(* the controller over the rationals; the base class keeps the tolerance
   and doubles the time step *)
Definition konti : 'I_2 := ord0.
Definition transport : 'I_2 := lift ord0 ord0.

Definition base : Lens.ParentMembers rat 2 rat :=
  Lens.mkParentMembers
    (fun p => p) (fun t _ => t) (fun _ p => p) (fun _ p => p)
    (fun p _ _ => p) (fun _ oldTimeStep => oldTimeStep * 2%:R).

Definition controller : Lens.LensOnePTwoCNewtonController rat rat :=
  Lens.mkController (1 / 2%:R) 1 10%:R.

Definition u : Lens.SolutionFunction rat 2 := [:: const_mx 2%:R; const_mx 1].
Definition uOld : Lens.SolutionFunction rat 2 := [:: const_mx 1; const_mx 1].

End Demo.

(* ===================================================================== *)
(* Runs of the controller, and further concrete data                     *)
(* ===================================================================== *)

Module LensRun.
Section LensRun.

Variable Scalar : realFieldType.
Variable numEq : nat.
Variables konti transport : 'I_numEq.
Variable ParentType : Type.
Variable base : Lens.ParentMembers Scalar numEq ParentType.

(* The states a controller can be taken to from the state c0 by calls of
   its non-const members. *)
Inductive reachable_from (c0 : Lens.LensOnePTwoCNewtonController Scalar ParentType)
  : Lens.LensOnePTwoCNewtonController Scalar ParentType -> Prop :=
| from_start : reachable_from c0 c0
| from_newtonEndStep c u uOld :
    reachable_from c0 c ->
    reachable_from c0 (Lens.newtonEndStep konti transport base c u uOld)
| from_newtonConverged c :
    reachable_from c0 c ->
    reachable_from c0 (Lens.newtonConverged base c).2.

End LensRun.
End LensRun.

Module DemoMore.

(* an element whose evaluation point is the current solution *)
Definition elemCtxSame : Ncp.ElementContext rat Demo.FluidState unit :=
  Ncp.mkElementContext 2
    (fun scvIdx _ => if scvIdx is 0%N then Demo.fs_full else Demo.fs_open)
    (fun scvIdx _ => if scvIdx is 0%N then Demo.fs_full else Demo.fs_open)
    (fun _ => Demo.geometry) tt.

(* the element of Demo with another solution and another geometry at the
   previous time level *)
Definition elemCtxPrev : Ncp.ElementContext rat Demo.FluidState unit :=
  Ncp.mkElementContext 2
    (fun _ timeIdx => if timeIdx is 0%N then Demo.fs_full else Demo.fs_tie)
    (fun _ _ => Demo.fs_tie)
    (fun timeIdx =>
       if timeIdx is 0%N then Demo.geometry
       else Ncp.mkFVElementGeometry (fun _ => Ncp.mkSubControlVolume 1))
    tt.

(* an element without sub-control volumes *)
Definition elemCtxEmpty : Ncp.ElementContext rat Demo.FluidState unit :=
  Ncp.mkElementContext 0 (fun _ _ => Demo.fs_full) (fun _ _ => Demo.fs_tie)
    (fun _ => Demo.geometry) tt.

(* fs_full with other saturations and other mole fractions beyond the two
   components of the configuration *)
Definition fs_full' : Demo.FluidState :=
  Ncp.mkFluidState (fun _ => 0)
    (fun _ compIdx => if (compIdx < 2)%N then 1 / 2%:R else 9%:R).

(* the extrusion factor of the volume variables of Demo *)
Definition extrusionFactor (vv : Demo.FluidState) : rat := 2%:R.

(* two further degrees of freedom *)
Definition u2 : Lens.SolutionFunction rat 2 := [:: const_mx 3%:R].
Definition uOld2 : Lens.SolutionFunction rat 2 := [:: const_mx 1].

End DemoMore.

(* ===================================================================== *)
(* phaseNotPresentIneq_ for any Scalar, and for Scalar = double          *)
(* ===================================================================== *)

(* The function uses two things of its Scalar: the constant 1 and the
   subtraction.  Here they are all that is known of Scalar. *)
Module AnyScalar.
Section AnyScalar.

Variable Scalar : Type.
Variable one : Scalar.
Variable sub : Scalar -> Scalar -> Scalar.

Record FluidState := mkFluidState {
  saturation : nat -> Scalar;
  moleFraction : nat -> nat -> Scalar
}.

Definition phaseNotPresentIneq_ (numComponents : nat) (fs : FluidState)
    (phaseIdx : nat) : Scalar :=
  for_loop numComponents
    (fun a i => sub a (moleFraction fs phaseIdx i)) one.

End AnyScalar.
End AnyScalar.

(* double: IEEE 754 binary64 as the Standard Library specifies it, with
   53 bits of precision, exponents below 1024 and rounding to nearest,
   ties to even.  S754_finite s m e is the number (-1)^s m 2^e. *)
Module Double.

Definition prec : Z := Zpos 53.
Definition emax : Z := Zpos 1024.

Definition Scalar := spec_float.

Definition zero : Scalar := S754_zero false.
Definition one : Scalar := S754_finite false 4503599627370496 (Zneg 52).
Definition add : Scalar -> Scalar -> Scalar := SFadd prec emax.
Definition sub : Scalar -> Scalar -> Scalar := SFsub prec emax.

(* the number a finite double stands for, in units of 2^-1074 *)
Definition exact (x : Scalar) : option Z :=
  match x with
  | S754_zero _ => Some Z0
  | S754_finite s m e =>
      let v := Z.mul (Zpos m) (Z.pow (Zpos 2) (Z.add e (Zpos 1074))) in
      Some (if s then Z.opp v else v)
  | _ => None
  end.

(* the sum of the numbers a list of finite doubles stands for, without
   rounding *)
Definition exact_sum (xs : seq Scalar) : option Z :=
  foldl (fun acc x =>
           match acc, exact x with
           | Some a, Some v => Some (Z.add a v)
           | _, _ => None
           end) (Some Z0) xs.

Definition phaseNotPresentIneq_ :=
  AnyScalar.phaseNotPresentIneq_ one sub.

(* 2^-54 and 1 - 2^-53 *)
Definition two_m54 : Scalar :=
  S754_finite false 4503599627370496 (Zneg 106).
Definition one_minus_two_m53 : Scalar :=
  S754_finite false 9007199254740991 (Zneg 53).

(* a phase of three components with the mole fractions 2^-54, 1 - 2^-53
   and 2^-54 *)
Definition fs_rounding : AnyScalar.FluidState Scalar :=
  AnyScalar.mkFluidState (fun _ => zero)
    (fun _ compIdx => if compIdx is 1%N then one_minus_two_m53 else two_m54).

End Double.

(* ===================================================================== *)
(* Properties                                                            *)
(* ===================================================================== *)

Section LoopFacts.
Variable S : Type.
Implicit Types (body : S -> nat -> S) (s : S).

Lemma for_loop0 body s : for_loop 0 body s = s.
Proof. by []. Qed.

Lemma for_loopS n body s :
  for_loop n.+1 body s = body (for_loop n body s) n.
Proof. by rw /for_loop -addn1 iotaD foldl_cat /= add0n. Qed.

(* a loop preserves what every pass preserves *)
Lemma for_loop_ind (P : S -> Prop) n body s :
  P s -> (forall s' i, (i < n)%N -> P s' -> P (body s' i)) ->
  P (for_loop n body s).
Proof.
move=> Ps Pbody; elim: n Pbody => [|n IHn] Pbody //.
rw for_loopS; apply: (Pbody) => //.
by apply: IHn => s' i lt_in; apply: Pbody; apply: ltnW.
Qed.

End LoopFacts.

Module StdTheory.
Section StdTheory.
Variable Scalar : realFieldType.
Implicit Types a b : Scalar.

Lemma maxE a b : Std.max a b = Num.max a b.
Proof. by []. Qed.

Lemma minE a b : Std.min a b = Num.min a b.
Proof. by rw /Std.min minC. Qed.

Lemma absE a : Std.abs a = `|a|.
Proof. by []. Qed.

(* the largest element of a list of non-negative numbers is one of them *)
Lemma bigmax_attained (I : eqType) (F : I -> Scalar) (r : seq I) :
  (forall i, 0 <= F i) -> r <> [::] ->
  exists2 i, i \in r & \big[Num.max/0]_(i <- r) F i = F i.
Proof.
move=> F_ge0; elim: r => [|i r IHr] // _; rw big_cons.
have [->|/IHr [j j_r eq_j]] : r = [::] \/ r <> [::].
- by case: r {IHr}; [left|right].
- by exists i; rw ?mem_head // big_nil; apply/max_idPl.
rw eq_j /Num.max; case: ifP => _; last by exists i; rw ?mem_head.
by exists j; rw // in_cons j_r orbT.
Qed.

End StdTheory.
End StdTheory.

Module NcpTheory.
Section NcpTheory.

Variable Scalar : realFieldType.
Variable numEq : nat.
Variable VolumeVariables : Type.
Variable fluidState : VolumeVariables -> Ncp.FluidState Scalar.
Variable extrusionFactor : VolumeVariables -> Scalar.
Variable Problem : Type.

Local Abbreviation TypeTag := (Ncp.TypeTag Scalar numEq VolumeVariables Problem).
Local Abbreviation ElementContext := (Ncp.ElementContext Scalar VolumeVariables Problem).
Local Abbreviation EqVector := (Ncp.EqVector Scalar numEq).
Local Abbreviation LocalBlockVector := (Ncp.LocalBlockVector Scalar numEq).
Local Abbreviation phaseNcp_ := (Ncp.phaseNcp_ fluidState).
Local Abbreviation eval := (Ncp.eval fluidState).
Local Abbreviation addPhaseStorage := (Ncp.addPhaseStorage extrusionFactor).

Implicit Types (tt : TypeTag) (elemCtx : ElementContext).
Implicit Types (fs fsEval : Ncp.FluidState Scalar).
Implicit Types (v : EqVector) (residual : LocalBlockVector).

(* subtracting the terms one after the other is subtracting their sum *)
Lemma foldl_sub (f : nat -> Scalar) (a : Scalar) (s : seq nat) :
  foldl (fun a i => a - f i) a s = a - \sum_(i <- s) f i.
Proof.
elim: s a => [|i s IHs] a /=; first by rw big_nil subr0.
by rw IHs big_cons opprD addrA.
Qed.

Lemma phaseNotPresentIneq_sum tt fs phaseIdx :
  Ncp.phaseNotPresentIneq_ tt fs phaseIdx =
  1 - \sum_(0 <= i < Ncp.numComponents tt) Ncp.moleFraction fs phaseIdx i.
Proof.
by rw /Ncp.phaseNotPresentIneq_ /for_loop foldl_sub /index_iota subn0.
Qed.

(** C1.  phaseNcp_ decides on the fluid state of the evaluation point and
    returns a value of the actual fluid state: when phaseNotPresentIneq_
    is strictly larger than phasePresentIneq_ at the evaluation point it
    returns phasePresentIneq_ of the actual state, otherwise
    phaseNotPresentIneq_ of the actual state.  In particular two equal
    values at the evaluation point select the phase-not-present branch. *)
Theorem phaseNcp_switch tt elemCtx scvIdx timeIdx phaseIdx :
  let fsEval := fluidState (Ncp.evalPointVolVars elemCtx scvIdx timeIdx) in
  let fs := fluidState (Ncp.volVars elemCtx scvIdx timeIdx) in
  let aEval := Ncp.phaseNotPresentIneq_ tt fsEval phaseIdx in
  let bEval := Ncp.phasePresentIneq_ fsEval phaseIdx in
  [/\ phaseNcp_ tt elemCtx scvIdx timeIdx phaseIdx =
        (if aEval > bEval then Ncp.phasePresentIneq_ fs phaseIdx
         else Ncp.phaseNotPresentIneq_ tt fs phaseIdx),
      aEval > bEval ->
        phaseNcp_ tt elemCtx scvIdx timeIdx phaseIdx =
        Ncp.phasePresentIneq_ fs phaseIdx,
      ~~ (aEval > bEval) ->
        phaseNcp_ tt elemCtx scvIdx timeIdx phaseIdx =
        Ncp.phaseNotPresentIneq_ tt fs phaseIdx
    & aEval = bEval ->
        phaseNcp_ tt elemCtx scvIdx timeIdx phaseIdx =
        Ncp.phaseNotPresentIneq_ tt fs phaseIdx].
Proof.
move=> fsEval fs aEval bEval; rw /Ncp.phaseNcp_ -/fsEval -/fs -/aEval -/bEval.
split=> [//|-> //|/negbTE -> //|->].
by rw ltxx.
Qed.

(** C7.  computeSource returns the source term supplied by the problem
    plus the source contribution of the mass residual (computed from a
    zero vector), and nothing else: the result is the same whatever the
    energy residual of the configuration is. *)
Theorem computeSource_mass_only tt (source0 : EqVector) elemCtx scvIdx timeIdx :
  Ncp.computeSource tt source0 elemCtx scvIdx timeIdx =
    Ncp.source tt (Ncp.problem elemCtx) source0 elemCtx scvIdx timeIdx
    + Ncp.mass_computeSource (Ncp.massResid tt) 0 elemCtx scvIdx timeIdx
  /\ forall energy,
       Ncp.computeSource (Ncp.setEnergyResid tt energy)
                         source0 elemCtx scvIdx timeIdx =
       Ncp.computeSource tt source0 elemCtx scvIdx timeIdx.
Proof. by []. Qed.

Lemma addPhaseStorage_loop tt (storage : EqVector) elemCtx phaseIdx n :
  for_loop n (fun (storage : EqVector) scvIdx =>
    storage
    + (extrusionFactor (Ncp.volVars elemCtx scvIdx 0%N) *
       Ncp.volume (Ncp.subContVol (Ncp.fvElemGeom elemCtx 0%N) scvIdx))
      *: Ncp.energy_addPhaseStorage (Ncp.energyResid tt)
           (Ncp.mass_addPhaseStorage (Ncp.massResid tt) 0
              (Ncp.volVars elemCtx scvIdx 0%N) phaseIdx)
           (Ncp.volVars elemCtx scvIdx 0%N) phaseIdx) storage =
  storage
  + \sum_(0 <= scvIdx < n)
      (extrusionFactor (Ncp.volVars elemCtx scvIdx 0%N) *
       Ncp.volume (Ncp.subContVol (Ncp.fvElemGeom elemCtx 0%N) scvIdx))
      *: Ncp.energy_addPhaseStorage (Ncp.energyResid tt)
           (Ncp.mass_addPhaseStorage (Ncp.massResid tt) 0
              (Ncp.volVars elemCtx scvIdx 0%N) phaseIdx)
           (Ncp.volVars elemCtx scvIdx 0%N) phaseIdx.
Proof.
elim: n => [|n IHn]; first by rw for_loop0 big_geq // addr0.
by rw for_loopS IHn big_nat_recr //= addrA.
Qed.

(** C10.  addPhaseStorage adds to the vector it is given: the result is
    the initial value plus, summed over the sub-control volumes, the
    mass-plus-energy phase storage scaled by extrusion factor times
    volume.  computeStorage and computeFlux start from zero: their result
    does not depend on the previous contents of the output argument. *)
Theorem addPhaseStorage_accumulates tt (storage storage' : EqVector) elemCtx
    phaseIdx scvIdx timeIdx :
  [/\ addPhaseStorage tt storage elemCtx phaseIdx =
        storage
        + \sum_(0 <= scvIdx < Ncp.numScv elemCtx)
            (extrusionFactor (Ncp.volVars elemCtx scvIdx 0%N) *
             Ncp.volume (Ncp.subContVol (Ncp.fvElemGeom elemCtx 0%N) scvIdx))
            *: Ncp.energy_addPhaseStorage (Ncp.energyResid tt)
                 (Ncp.mass_addPhaseStorage (Ncp.massResid tt) 0
                    (Ncp.volVars elemCtx scvIdx 0%N) phaseIdx)
                 (Ncp.volVars elemCtx scvIdx 0%N) phaseIdx,
      Ncp.computeStorage tt storage elemCtx scvIdx timeIdx =
        Ncp.energy_computeStorage (Ncp.energyResid tt)
          (Ncp.mass_computeStorage (Ncp.massResid tt) 0
             (Ncp.volVars elemCtx scvIdx timeIdx))
          (Ncp.volVars elemCtx scvIdx timeIdx),
      Ncp.computeStorage tt storage elemCtx scvIdx timeIdx =
        Ncp.computeStorage tt storage' elemCtx scvIdx timeIdx,
      Ncp.computeFlux tt storage elemCtx scvIdx timeIdx =
        Ncp.mass_computeFlux (Ncp.massResid tt) 0 elemCtx scvIdx timeIdx
    & Ncp.computeFlux tt storage elemCtx scvIdx timeIdx =
        Ncp.computeFlux tt storage' elemCtx scvIdx timeIdx].
Proof. by split=> //; exact: addPhaseStorage_loop. Qed.

(* --- single entries of vectors and block vectors --------------------- *)

Lemma entry_ord v (j : 'I_numEq) : Ncp.entry v j = v 0 j.
Proof. by rw /Ncp.entry valK. Qed.

Lemma entry_out v k : (numEq <= k)%N -> Ncp.entry v k = 0.
Proof. by move=> le_k; rw /Ncp.entry insubF // ltnNge le_k. Qed.

Lemma entry_set_entry v k a k' :
  (k < numEq)%N ->
  Ncp.entry (Ncp.set_entry v k a) k' = if k' == k then a else Ncp.entry v k'.
Proof.
move=> lt_k; case: (ltnP k' numEq) => [lt_k'|le_k'].
  by rw -[k']/(val (Ordinal lt_k')) !entry_ord mxE.
rw !entry_out //; case: eqP => // eq_k.
by rw -eq_k ltnNge le_k' in lt_k.
Qed.

Lemma size_assign residual scvIdx k a :
  size (Ncp.assign residual scvIdx k a) = size residual.
Proof.
rw /Ncp.assign; case: ifP => // lt_scv.
by rw size_set_nth; apply/maxn_idPr.
Qed.

Lemma block_entry_assign residual scvIdx k a scvIdx' k' :
  (scvIdx < size residual)%N -> (k < numEq)%N ->
  Ncp.block_entry (Ncp.assign residual scvIdx k a) scvIdx' k' =
  if (scvIdx' == scvIdx) && (k' == k) then a
  else Ncp.block_entry residual scvIdx' k'.
Proof.
move=> lt_scv lt_k; rw /Ncp.block_entry /Ncp.assign lt_scv nth_set_nth /=.
by case: eqP => [->|_] //=; rw entry_set_entry.
Qed.

(* --- the two nested loops of eval ------------------------------------ *)

(* the loop over the phases of one sub-control volume *)
Lemma phase_loop residual scvIdx ncp0 (f : nat -> Scalar) n :
  (scvIdx < size residual)%N -> (ncp0 + n <= numEq)%N ->
  let residual' :=
    for_loop n (fun residual phaseIdx =>
      Ncp.assign residual scvIdx (ncp0 + phaseIdx) (f phaseIdx)) residual in
  size residual' = size residual /\
  forall scvIdx' k,
    Ncp.block_entry residual' scvIdx' k =
    if (scvIdx' == scvIdx) && (ncp0 <= k < ncp0 + n)%N then f (k - ncp0)%N
    else Ncp.block_entry residual scvIdx' k.
Proof.
move=> lt_scv; elim: n => [|n IHn] le_n /=.
  split=> // scvIdx' k; rw for_loop0 addn0.
  by rw (leqNgt ncp0 k) andNb andbF.
have lt_n : (ncp0 + n < numEq)%N by rw -addnS.
have [|sz_n get_n] := IHn; first exact: ltnW.
rw for_loopS; split=> [|scvIdx' k]; first by rw size_assign.
rw block_entry_assign ?sz_n // get_n addnS ltnS.
case: (scvIdx' == scvIdx) => //=.
have [->|ne_k] := eqVneq k (ncp0 + n)%N; first by rw leq_addr leqnn addKn.
by rw (leq_eqVlt k) (negbTE ne_k).
Qed.

(* the loop over the sub-control volumes *)
Lemma scv_loop residual ncp0 nP (f : nat -> nat -> Scalar) m :
  (m <= size residual)%N -> (ncp0 + nP <= numEq)%N ->
  let residual' :=
    for_loop m (fun residual scvIdx =>
      for_loop nP (fun residual phaseIdx =>
        Ncp.assign residual scvIdx (ncp0 + phaseIdx) (f scvIdx phaseIdx))
        residual) residual in
  size residual' = size residual /\
  forall scvIdx k,
    Ncp.block_entry residual' scvIdx k =
    if (scvIdx < m)%N && (ncp0 <= k < ncp0 + nP)%N then f scvIdx (k - ncp0)%N
    else Ncp.block_entry residual scvIdx k.
Proof.
move=> le_m le_nP; elim: m le_m => [|m IHm] le_m /=; first by [].
have [|sz_m get_m] := IHm; first exact: ltnW.
rw for_loopS; set residual_m := for_loop m _ _ in sz_m get_m *.
have lt_m : (m < size residual_m)%N by rw sz_m.
have /= [sz_m1 get_m1] := phase_loop (f m) lt_m le_nP.
split=> [|scvIdx k]; first by rw sz_m1.
rw get_m1 get_m ltnS (leq_eqVlt scvIdx).
by case: eqP => [->|_] //=; case: (_ <= _ < _)%N; rw ?andbF.
Qed.

(** C2.  After eval, row phase0NcpIdx + phaseIdx of every sub-control
    volume holds phaseNcp_ (elemCtx, scvIdx, 0, phaseIdx), whatever the
    base assembly had written there; every other entry of the residual,
    the number of its blocks and the whole storage term are those of the
    base assembly.  The base assembly is assumed to leave a residual with
    a block per sub-control volume, and the NCP rows to lie inside an
    EqVector. *)
Theorem eval_overwrites_ncp_rows tt residual0 storageTerm0 elemCtx :
  let base := Ncp.ParentType_eval tt residual0 storageTerm0 elemCtx in
  let out := eval tt residual0 storageTerm0 elemCtx in
  (Ncp.numScv elemCtx <= size base.1)%N ->
  (Ncp.phase0NcpIdx tt + Ncp.numPhases tt <= numEq)%N ->
  [/\ forall scvIdx phaseIdx,
        (scvIdx < Ncp.numScv elemCtx)%N -> (phaseIdx < Ncp.numPhases tt)%N ->
        Ncp.block_entry out.1 scvIdx (Ncp.phase0NcpIdx tt + phaseIdx) =
        phaseNcp_ tt elemCtx scvIdx 0%N phaseIdx,
      forall scvIdx k,
        ~~ ((scvIdx < Ncp.numScv elemCtx)%N &&
            (Ncp.phase0NcpIdx tt <= k
               < Ncp.phase0NcpIdx tt + Ncp.numPhases tt)%N) ->
        Ncp.block_entry out.1 scvIdx k = Ncp.block_entry base.1 scvIdx k,
      size out.1 = size base.1
    & out.2 = base.2].
Proof.
rw /Ncp.eval; case: (Ncp.ParentType_eval _ _ _ _) => residual storageTerm /=.
move=> le_scv le_ncp.
have [sz get] :=
  scv_loop (fun scvIdx phaseIdx => phaseNcp_ tt elemCtx scvIdx 0%N phaseIdx)
           le_scv le_ncp.
split=> // [scvIdx phaseIdx lt_scv lt_phase|scvIdx k /negbTE out_k].
  by rw get lt_scv leq_addr ltn_add2l lt_phase addKn.
by rw get out_k.
Qed.


End NcpTheory.

(* --- the statements above at the concrete configuration ---------------- *)

(* sub-control volume 0 decides for "present", sub-control volume 1 is
   exactly balanced and decides for "not present" *)
Lemma phaseNcp_switch_witness :
  Ncp.phaseNcp_ id Demo.typeTag Demo.elemCtx 0 0 0 =
    Ncp.phasePresentIneq_ Demo.fs_full 0
  /\ Ncp.phaseNcp_ id Demo.typeTag Demo.elemCtx 1 0 0 =
    Ncp.phaseNotPresentIneq_ Demo.typeTag Demo.fs_full 0.
Proof.
split.
- have [_ present _ _] := phaseNcp_switch id Demo.typeTag Demo.elemCtx 0 0 0.
  by apply: present; vm_compute.
- have [_ _ absent tie] := phaseNcp_switch id Demo.typeTag Demo.elemCtx 1 0 0.
  have eq1 := tie _; have eq2 := absent _.
  by apply: eq1; vm_compute.
Defined.

Lemma eval_overwrites_ncp_rows_witness :
  let out := Ncp.eval id Demo.typeTag [::] [::] Demo.elemCtx in
  let base := Ncp.ParentType_eval Demo.typeTag [::] [::] Demo.elemCtx in
  [/\ Ncp.block_entry out.1 1 3 = Ncp.phaseNcp_ id Demo.typeTag Demo.elemCtx 1 0 1,
      Ncp.block_entry out.1 1 0 = Ncp.block_entry base.1 1 0
    & out.2 = base.2].
Proof.
have [//|//|ncp frame _ storage] :=
  @eval_overwrites_ncp_rows _ _ _ id _ Demo.typeTag [::] [::] Demo.elemCtx.
by split=> //; [apply: (ncp 1%N 1%N) | apply: (frame 1%N 0%N)].
Defined.

(* the switch evaluated: sub-control volume 0 returns the saturation 3/4
   of the actual state, sub-control volume 1 its mole-fraction deficit 0 *)
Example phaseNcp_demo :
  Ncp.phaseNcp_ id Demo.typeTag Demo.elemCtx 0 0 0 = 3%:R / 4%:R
  /\ Ncp.phaseNcp_ id Demo.typeTag Demo.elemCtx 1 0 0 = 0.
Proof. by split; apply/eqP; vm_compute. Qed.

End NcpTheory.

(* ===================================================================== *)
(* phaseNotPresentIneq_ and rounding                                     *)
(* ===================================================================== *)

Module DoubleTheory.

(** C6 (amended).  For any Scalar, double included, phaseNotPresentIneq_
    starts from 1 and subtracts the mole fractions of the components 0,
    1, ..., numComponents - 1 of the phase one after the other, each
    subtraction being the one of Scalar.  The function of the residual is
    this one at the operations of its Scalar; when these are exact (a
    real field) the result is 1 minus the sum of the mole fractions, and
    0 when they sum to 1. *)
Theorem phaseNotPresentIneq_in_order
    (S : Type) (one : S) (sub : S -> S -> S) (fsS : AnyScalar.FluidState S)
    (n : nat)
    (Scalar : realFieldType) (numEq : nat) (VolumeVariables Problem : Type)
    (tt : Ncp.TypeTag Scalar numEq VolumeVariables Problem)
    (fs : Ncp.FluidState Scalar) (phaseIdx : nat) :
  [/\ AnyScalar.phaseNotPresentIneq_ one sub 0 fsS phaseIdx = one,
      AnyScalar.phaseNotPresentIneq_ one sub n.+1 fsS phaseIdx =
        sub (AnyScalar.phaseNotPresentIneq_ one sub n fsS phaseIdx)
            (AnyScalar.moleFraction fsS phaseIdx n),
      Ncp.phaseNotPresentIneq_ tt fs phaseIdx =
        AnyScalar.phaseNotPresentIneq_ 1 (fun a b => a - b)
          (Ncp.numComponents tt)
          (AnyScalar.mkFluidState (Ncp.saturation fs) (Ncp.moleFraction fs))
          phaseIdx,
      Ncp.phaseNotPresentIneq_ tt fs phaseIdx =
        1 - \sum_(0 <= i < Ncp.numComponents tt)
              Ncp.moleFraction fs phaseIdx i
    & \sum_(0 <= i < Ncp.numComponents tt)
         Ncp.moleFraction fs phaseIdx i = 1 ->
      Ncp.phaseNotPresentIneq_ tt fs phaseIdx = 0].
Proof.
split=> //; first by rw /AnyScalar.phaseNotPresentIneq_ for_loopS.
- exact: NcpTheory.phaseNotPresentIneq_sum.
- by rw NcpTheory.phaseNotPresentIneq_sum => ->; rw subrr.
Qed.

(* on double the third subtraction of fs_rounding is taken from the
   result of the first two; over the rationals fs_full gives 0 *)
Lemma phaseNotPresentIneq_in_order_witness :
  Double.phaseNotPresentIneq_ 3 Double.fs_rounding 0 =
    Double.sub (Double.phaseNotPresentIneq_ 2 Double.fs_rounding 0)
               Double.two_m54
  /\ Ncp.phaseNotPresentIneq_ Demo.typeTag Demo.fs_full 0 = 0.
Proof.
have [_ step _ _ full] :=
  phaseNotPresentIneq_in_order Double.one Double.sub Double.fs_rounding 2
    Demo.typeTag Demo.fs_full 0.
split; first exact: step.
apply: full; rw unlock /=.
by vm_compute.
Defined.

(** C6 as stated fails for Scalar = double.  The mole fractions 2^-54,
    1 - 2^-53 and 2^-54 sum to exactly 1, as numbers and in double
    arithmetic in either order, but phaseNotPresentIneq_ returns 2^-54
    for them: 1 - 2^-54 rounds to 1, 1 - (1 - 2^-53) is 2^-53, and
    2^-53 - 2^-54 is 2^-54.  So the result is neither 0 nor 1 minus the
    sum. *)
Lemma phaseNotPresentIneq_double_counterexample :
  let x := AnyScalar.moleFraction Double.fs_rounding 0 in
  [/\ Double.exact_sum [:: x 0%N; x 1%N; x 2%N] = Double.exact Double.one,
      Double.add (Double.add (x 0%N) (x 1%N)) (x 2%N) = Double.one,
      Double.add (x 0%N) (Double.add (x 1%N) (x 2%N)) = Double.one,
      Double.phaseNotPresentIneq_ 3 Double.fs_rounding 0 = Double.two_m54
    & Double.phaseNotPresentIneq_ 3 Double.fs_rounding 0 <>
      Double.sub Double.one
        (Double.add (Double.add (x 0%N) (x 1%N)) (x 2%N))].
Proof. by split; vm_compute. Qed.

End DoubleTheory.

Module LensTheory.
Section LensTheory.

Variable Scalar : realFieldType.
Variable numEq : nat.
Variables konti transport : 'I_numEq.
Variable ParentType : Type.
Variable base : Lens.ParentMembers Scalar numEq ParentType.

Local Abbreviation SolutionFunction := (Lens.SolutionFunction Scalar numEq).
Local Abbreviation Controller :=
  (Lens.LensOnePTwoCNewtonController Scalar ParentType).
Local Abbreviation newtonEndStep := (Lens.newtonEndStep konti transport base).
Local Abbreviation newtonConverged := (Lens.newtonConverged base).
Local Abbreviation suggestTimeStepSize := (Lens.suggestTimeStepSize base).
Local Abbreviation defectP := (Lens.defectP konti).
Local Abbreviation defectTrans := (Lens.defectTrans transport).
Local Abbreviation relDefect_spec := (Lens.relDefect_spec konti transport).
Local Abbreviation reachable := (Lens.reachable konti transport base).

Implicit Types (c : Controller) (u uOld : SolutionFunction).

Lemma lit_1e3_gt0 : 0 < Lens.lit_1e3 Scalar.
Proof. by rw /Lens.lit_1e3 ltr0n. Qed.

Lemma lit_1em3_gt0 : 0 < Lens.lit_1em3 Scalar.
Proof. by rw /Lens.lit_1em3 invr_gt0 ltr0n. Qed.

Lemma lit_1e100_ge0 : 0 <= Lens.lit_1e100 Scalar.
Proof. by rw /Lens.lit_1e100 exprn_ge0 // ler0n. Qed.

Lemma normP_gt0 u uOld i : 0 < Lens.normP konti u uOld i.
Proof. by rw /Lens.normP lt_max lit_1e3_gt0. Qed.

Lemma normTrans_gt0 u uOld i : 0 < Lens.normTrans transport u uOld i.
Proof. by rw /Lens.normTrans lt_max lit_1em3_gt0. Qed.

Lemma defectP_ge0 u uOld i : 0 <= defectP u uOld i.
Proof. by rw /Lens.defectP divr_ge0 // ltW // normP_gt0. Qed.

Lemma defectTrans_ge0 u uOld i : 0 <= defectTrans u uOld i.
Proof. by rw /Lens.defectTrans divr_ge0 // ltW // normTrans_gt0. Qed.

Lemma defect_ge0 u uOld i :
  0 <= Num.max (defectP u uOld i) (defectTrans u uOld i).
Proof. by rw le_max defectP_ge0. Qed.

(* one pass of the loop takes the larger of the running value and the two
   quotients of degree of freedom i *)
Lemma endStep_bodyE u uOld (relDefect : Scalar) i :
  Lens.endStep_body konti transport u uOld relDefect i =
  Num.max relDefect (Num.max (defectP u uOld i) (defectTrans u uOld i)).
Proof.
rw /Lens.endStep_body !StdTheory.maxE !StdTheory.absE -!maxA.
by rw /Lens.defectP /Lens.defectTrans /Lens.normP /Lens.normTrans.
Qed.

Lemma endStep_foldl u uOld (a : Scalar) (s : seq nat) :
  0 <= a ->
  foldl (Lens.endStep_body konti transport u uOld) a s =
  Num.max a (\big[Num.max/0]_(i <- s)
               Num.max (defectP u uOld i) (defectTrans u uOld i)).
Proof.
elim: s a => [|i s IHs] a a_ge0 /=; first by rw big_nil; apply/esym/max_idPl.
have step_ge0 :
  0 <= Num.max a (Num.max (defectP u uOld i) (defectTrans u uOld i)).
  by rw le_max a_ge0.
by rw endStep_bodyE (IHs _ step_ge0) big_cons -maxA.
Qed.

Lemma relDefect_newtonEndStep c u uOld :
  Lens.relDefect_ (newtonEndStep c u uOld) = relDefect_spec u uOld.
Proof.
rw /= /for_loop endStep_foldl // /Lens.relDefect_spec /index_iota subn0.
by apply/max_idPr/bigmax_ge_id.
Qed.

Lemma relDefect_spec_ge0 u uOld : 0 <= relDefect_spec u uOld.
Proof. exact: bigmax_ge_id. Qed.

(** C3.  After newtonEndStep (u, uOld) the relative defect is the largest
    of the quotients |u_i.konti - uOld_i.konti| / max (1e3, |u_i.konti|,
    |uOld_i.konti|) and |u_i.transport - uOld_i.transport| / max (1e-3,
    |u_i.transport|, |uOld_i.transport|) over all degrees of freedom i:
    it bounds each of them and, when there is a degree of freedom, is one
    of them.  It is the same for every controller the call starts from. *)
Theorem newtonEndStep_relDefect c c' u uOld :
  (size u <= size uOld)%N ->
  let r := Lens.relDefect_ (newtonEndStep c u uOld) in
  [/\ r = relDefect_spec u uOld,
      forall i, (i < size u)%N ->
        defectP u uOld i <= r /\ defectTrans u uOld i <= r,
      (0 < size u)%N ->
        exists2 i, (i < size u)%N &
          r = defectP u uOld i \/ r = defectTrans u uOld i
    & Lens.relDefect_ (newtonEndStep c' u uOld) = r].
Proof.
move=> _ r; rw /r !relDefect_newtonEndStep /Lens.relDefect_spec.
split=> // [i lt_i|u_gt0].
- have i_in : i \in index_iota 0 (size u) by rw mem_index_iota.
  by split; apply: (bigmax_sup_seq _ i) => //; rw le_max lexx ?orbT.
- have [|i] := StdTheory.bigmax_attained (r := index_iota 0 (size u)) (defect_ge0 u uOld).
    by rw /index_iota subn0; case: (size u) u_gt0.
  rw mem_index_iota /= => lt_i ->; exists i => //.
  by rw /Num.max; case: ifP => _; [right|left].
Qed.

(** C4.  newtonConverged answers relDefect_ <= tolerance_ (so equality
    counts as converged), leaves the controller as it was, and answers
    the same when asked again. *)
Theorem newtonConverged_pure c :
  [/\ (newtonConverged c).1 =
        (Lens.relDefect_ c <= Lens.tolerance_ base (Lens.parent c)),
      (newtonConverged c).2 = c,
      (newtonConverged (newtonConverged c).2).1 = (newtonConverged c).1
    & forall u uOld,
        (newtonConverged (newtonEndStep c u uOld)).1 =
        (relDefect_spec u uOld
           <= Lens.tolerance_ base (Lens.parent (newtonEndStep c u uOld)))].
Proof. by split=> // u uOld; rw /Lens.newtonConverged relDefect_newtonEndStep. Qed.

(** C5.  suggestTimeStepSize returns the smaller of maxTimeStepSize_ and
    the suggestion of the base class: never more than maxTimeStepSize_,
    and the base suggestion itself when that does not exceed the bound. *)
Theorem suggestTimeStepSize_bounded c oldTimeStep :
  let generic :=
    Lens.ParentType_suggestTimeStepSize base (Lens.parent c) oldTimeStep in
  [/\ suggestTimeStepSize c oldTimeStep =
        Num.min (Lens.maxTimeStepSize_ c) generic,
      suggestTimeStepSize c oldTimeStep <= Lens.maxTimeStepSize_ c
    & generic <= Lens.maxTimeStepSize_ c ->
      suggestTimeStepSize c oldTimeStep = generic].
Proof.
move=> generic; rw /Lens.suggestTimeStepSize StdTheory.minE -/generic.
by split=> // [|/min_idPr]; rw ?ge_min ?lexx.
Qed.

(** C8.  relDefect_ >= 0 is an invariant: the constructor sets it to
    1e100, every newtonEndStep sets it to a non-negative value, and so it
    is non-negative in every state reachable from the constructor. *)
Theorem relDefect_invariant :
  [/\ forall parent0 ipp,
        Lens.relDefect_ (Lens.construct base parent0 ipp) =
        Lens.lit_1e100 Scalar,
      forall c u uOld, 0 <= Lens.relDefect_ (newtonEndStep c u uOld)
    & forall c, reachable c -> 0 <= Lens.relDefect_ c].
Proof.
have ge0 c u uOld : 0 <= Lens.relDefect_ (newtonEndStep c u uOld).
  by rw relDefect_newtonEndStep relDefect_spec_ge0.
split=> // c; elim=> {c} [parent0 ipp|c u uOld _ _ _|c _ c_ge0] //.
exact: lit_1e100_ge0.
Qed.

Lemma relDefect_same c u : Lens.relDefect_ (newtonEndStep c u u) = 0.
Proof.
rw /=; apply: (@for_loop_ind _ (fun r => r = 0)) => // relDefect i _ ->.
by rw /Lens.endStep_body !subrr /Std.abs normr0 !mul0r /Std.max !ltxx.
Qed.

(** C9.  With no degree of freedom, and with two identical iterates,
    newtonEndStep sets relDefect_ to 0, and newtonConverged then answers
    true for every non-negative tolerance. *)
Theorem newtonEndStep_no_change c u uOld :
  [/\ Lens.relDefect_ (newtonEndStep c [::] uOld) = 0,
      0 <= Lens.tolerance_ base (Lens.parent (newtonEndStep c [::] uOld)) ->
        (newtonConverged (newtonEndStep c [::] uOld)).1 = true,
      Lens.relDefect_ (newtonEndStep c u u) = 0
    & 0 <= Lens.tolerance_ base (Lens.parent (newtonEndStep c u u)) ->
        (newtonConverged (newtonEndStep c u u)).1 = true].
Proof.
split=> //; first exact: relDefect_same.
by rw /Lens.newtonConverged relDefect_same.
Qed.


End LensTheory.

(* --- the statements above at the concrete controller ------------------- *)

Lemma newtonEndStep_relDefect_witness :
  let r := Lens.relDefect_
             (Lens.newtonEndStep Demo.konti Demo.transport Demo.base
                Demo.controller Demo.u Demo.uOld) in
  [/\ r = Lens.relDefect_spec Demo.konti Demo.transport Demo.u Demo.uOld,
      Lens.defectP Demo.konti Demo.u Demo.uOld 0 <= r
    & exists2 i, (i < 2)%N &
        r = Lens.defectP Demo.konti Demo.u Demo.uOld i \/
        r = Lens.defectTrans Demo.transport Demo.u Demo.uOld i].
Proof.
have le_size : (size Demo.u <= size Demo.uOld)%N by [].
have [spec bound attained _] :=
  newtonEndStep_relDefect Demo.konti Demo.transport Demo.base
    Demo.controller Demo.controller le_size.
have [] := bound 0%N; first by [].
by move=> boundP _; split=> //; apply: attained.
Defined.

Lemma suggestTimeStepSize_bounded_witness :
  Lens.suggestTimeStepSize Demo.base Demo.controller 1 =
  Lens.ParentType_suggestTimeStepSize Demo.base
    (Lens.parent Demo.controller) 1.
Proof.
have [_ _ below] := suggestTimeStepSize_bounded Demo.base Demo.controller 1.
by apply: below; vm_compute.
Defined.

Lemma relDefect_invariant_witness :
  0 <= Lens.relDefect_
         (Lens.newtonEndStep Demo.konti Demo.transport Demo.base
            (Lens.construct Demo.base 0 10%:R) Demo.u Demo.uOld).
Proof.
have [_ _ inv] := relDefect_invariant Demo.konti Demo.transport Demo.base.
by apply: inv; apply: Lens.reach_newtonEndStep; first exact: Lens.reach_construct.
Defined.

Lemma newtonEndStep_no_change_witness :
  (Lens.newtonConverged Demo.base
     (Lens.newtonEndStep Demo.konti Demo.transport Demo.base
        Demo.controller [::] Demo.uOld)).1 = true
  /\ (Lens.newtonConverged Demo.base
       (Lens.newtonEndStep Demo.konti Demo.transport Demo.base
          Demo.controller Demo.u Demo.u)).1 = true.
Proof.
have [_ empty _ same] :=
  newtonEndStep_no_change Demo.konti Demo.transport Demo.base
    Demo.controller Demo.u Demo.uOld.
by split; [apply: empty | apply: same]; vm_compute.
Defined.

(* the defect evaluated: degree of freedom 0 moves both entries from 1 to
   2; the pressure-like quotient is 1/1000, the transport quotient 1/2 *)
Example relDefect_demo :
  Lens.relDefect_
    (Lens.newtonEndStep Demo.konti Demo.transport Demo.base
       Demo.controller Demo.u Demo.uOld) = 1 / 2%:R.
Proof.
rw /= /for_loop /= /Lens.endStep_body /Lens.at_ /= !mxE.
by apply/eqP; vm_compute.
Qed.

End LensTheory.

(* ===================================================================== *)
(* Further properties of the residual and of the controller              *)
(* ===================================================================== *)

Module NcpExtra.
Section NcpExtra.

Variable Scalar : realFieldType.
Variable numEq : nat.
Variable VolumeVariables : Type.
Variable fluidState : VolumeVariables -> Ncp.FluidState Scalar.
Variable extrusionFactor : VolumeVariables -> Scalar.
Variable Problem : Type.

Local Abbreviation TypeTag := (Ncp.TypeTag Scalar numEq VolumeVariables Problem).
Local Abbreviation ElementContext :=
  (Ncp.ElementContext Scalar VolumeVariables Problem).
Local Abbreviation EqVector := (Ncp.EqVector Scalar numEq).
Local Abbreviation LocalBlockVector := (Ncp.LocalBlockVector Scalar numEq).
Local Abbreviation phaseNcp_ := (Ncp.phaseNcp_ fluidState).
Local Abbreviation eval := (Ncp.eval fluidState).
Local Abbreviation addPhaseStorage := (Ncp.addPhaseStorage extrusionFactor).

Implicit Types (tt : TypeTag) (elemCtx : ElementContext).
Implicit Types (fs : Ncp.FluidState Scalar).
Implicit Types (storage : EqVector) (residual : LocalBlockVector).

(* x, y >= 0 with x y = 0 is the same as min (x, y) = 0 *)
Lemma min_eq0 (x y : Scalar) :
  (Num.min x y == 0) = [&& 0 <= x, 0 <= y & x * y == 0].
Proof.
rw mulf_eq0; apply/idP/idP => [/eqP min0|/and3P[x_ge0 y_ge0 /orP[]/eqP eq0]].
- have: 0 <= Num.min x y by rw min0.
  rw le_min => /andP[-> ->] /=.
  by move: min0; case: leP => _ ->; rw eqxx ?orbT.
- by rw eq0 in x_ge0 *; apply/eqP/min_idPl.
- by rw eq0 in y_ge0 *; apply/eqP/min_idPr.
Qed.

(* with the evaluation point at the actual state the switch is the
   minimum of the two inequalities *)
Lemma phaseNcp_minE tt elemCtx scvIdx timeIdx phaseIdx :
  fluidState (Ncp.evalPointVolVars elemCtx scvIdx timeIdx) =
  fluidState (Ncp.volVars elemCtx scvIdx timeIdx) ->
  phaseNcp_ tt elemCtx scvIdx timeIdx phaseIdx =
  Num.min
    (Ncp.phasePresentIneq_
       (fluidState (Ncp.volVars elemCtx scvIdx timeIdx)) phaseIdx)
    (Ncp.phaseNotPresentIneq_ tt
       (fluidState (Ncp.volVars elemCtx scvIdx timeIdx)) phaseIdx).
Proof. by rw /Ncp.phaseNcp_ => ->. Qed.

(** X1.  When the evaluation point of a sub-control volume is its actual
    fluid state, phaseNcp_ is the minimum of the saturation and of the
    mole-fraction deficit of the phase, so it is bounded by both. *)
Theorem phaseNcp_is_min tt elemCtx scvIdx timeIdx phaseIdx :
  fluidState (Ncp.evalPointVolVars elemCtx scvIdx timeIdx) =
  fluidState (Ncp.volVars elemCtx scvIdx timeIdx) ->
  let fs := fluidState (Ncp.volVars elemCtx scvIdx timeIdx) in
  let ncp := phaseNcp_ tt elemCtx scvIdx timeIdx phaseIdx in
  [/\ ncp = Num.min (Ncp.phasePresentIneq_ fs phaseIdx)
                    (Ncp.phaseNotPresentIneq_ tt fs phaseIdx),
      ncp <= Ncp.phasePresentIneq_ fs phaseIdx
    & ncp <= Ncp.phaseNotPresentIneq_ tt fs phaseIdx].
Proof.
by move=> /phaseNcp_minE-/(_ tt phaseIdx) eq_min /=; rw eq_min !ge_min !lexx ?orbT.
Qed.

(** X2.  When the evaluation point of a sub-control volume is its actual
    fluid state, the NCP row vanishes exactly when the complementarity
    conditions hold: the saturation and the mole-fraction deficit are both
    non-negative and their product is zero. *)
Theorem phaseNcp_complementarity tt elemCtx scvIdx timeIdx phaseIdx :
  fluidState (Ncp.evalPointVolVars elemCtx scvIdx timeIdx) =
  fluidState (Ncp.volVars elemCtx scvIdx timeIdx) ->
  let fs := fluidState (Ncp.volVars elemCtx scvIdx timeIdx) in
  (phaseNcp_ tt elemCtx scvIdx timeIdx phaseIdx == 0) =
  [&& 0 <= Ncp.phasePresentIneq_ fs phaseIdx,
      0 <= Ncp.phaseNotPresentIneq_ tt fs phaseIdx
    & Ncp.phasePresentIneq_ fs phaseIdx *
      Ncp.phaseNotPresentIneq_ tt fs phaseIdx == 0].
Proof. by move=> /phaseNcp_minE-/(_ tt phaseIdx) -> /=; rw min_eq0. Qed.

(** X3.  Whatever the evaluation point is, phaseNcp_ lies between the
    smaller and the larger of the saturation and the mole-fraction
    deficit of the actual fluid state. *)
Theorem phaseNcp_between tt elemCtx scvIdx timeIdx phaseIdx :
  let fs := fluidState (Ncp.volVars elemCtx scvIdx timeIdx) in
  Num.min (Ncp.phasePresentIneq_ fs phaseIdx)
          (Ncp.phaseNotPresentIneq_ tt fs phaseIdx)
    <= phaseNcp_ tt elemCtx scvIdx timeIdx phaseIdx
    <= Num.max (Ncp.phasePresentIneq_ fs phaseIdx)
               (Ncp.phaseNotPresentIneq_ tt fs phaseIdx).
Proof. by rw /Ncp.phaseNcp_; case: ifP => _; rw ge_min le_max lexx ?orbT. Qed.

(** X4.  phaseNotPresentIneq_ reads nothing but the mole fractions of the
    components below numComponents in the given phase: two fluid states
    that agree on these give the same value, whatever their saturations,
    their other phases and their further components are. *)
Theorem phaseNotPresentIneq_frame tt fs fs' phaseIdx :
  (forall i, (i < Ncp.numComponents tt)%N ->
     Ncp.moleFraction fs phaseIdx i = Ncp.moleFraction fs' phaseIdx i) ->
  Ncp.phaseNotPresentIneq_ tt fs phaseIdx =
  Ncp.phaseNotPresentIneq_ tt fs' phaseIdx.
Proof.
move=> same; rw !NcpTheory.phaseNotPresentIneq_sum; congr (1 - _).
by apply: eq_big_nat => i /andP[_ /same].
Qed.

(** X6.  For an element without sub-control volumes, and for a
    configuration without phases, eval returns the residual and the
    storage term of the base assembly as they are. *)
Theorem eval_nothing_to_overwrite tt residual storageTerm elemCtx :
  Ncp.numScv elemCtx = 0%N \/ Ncp.numPhases tt = 0%N ->
  eval tt residual storageTerm elemCtx =
  Ncp.ParentType_eval tt residual storageTerm elemCtx.
Proof.
rw /Ncp.eval; case: (Ncp.ParentType_eval _ _ _ _) => res sto [->|->] //.
by congr (_, _); apply: (@for_loop_ind _ (fun r => r = res)) => // r i _ ->.
Qed.

(** X8.  addPhaseStorage reads the element at the current time level
    only: two elements with the same number of sub-control volumes, the
    same volume variables and the same sub-control volume sizes at time
    index 0 give the same result; an element without sub-control volumes
    leaves the vector as it is. *)
Theorem addPhaseStorage_current_time tt storage elemCtx elemCtx' phaseIdx :
  Ncp.numScv elemCtx = Ncp.numScv elemCtx' ->
  (forall scvIdx, (scvIdx < Ncp.numScv elemCtx)%N ->
     Ncp.volVars elemCtx scvIdx 0%N = Ncp.volVars elemCtx' scvIdx 0%N /\
     Ncp.volume (Ncp.subContVol (Ncp.fvElemGeom elemCtx 0%N) scvIdx) =
     Ncp.volume (Ncp.subContVol (Ncp.fvElemGeom elemCtx' 0%N) scvIdx)) ->
  addPhaseStorage tt storage elemCtx phaseIdx =
    addPhaseStorage tt storage elemCtx' phaseIdx
  /\ (Ncp.numScv elemCtx = 0%N ->
      addPhaseStorage tt storage elemCtx phaseIdx = storage).
Proof.
move=> same_n same; split; last by rw /Ncp.addPhaseStorage => ->.
rw /Ncp.addPhaseStorage !NcpTheory.addPhaseStorage_loop -same_n.
by congr (_ + _); apply: eq_big_nat => i /andP[_ /same[-> ->]].
Qed.

End NcpExtra.

(* --- the statements above at concrete data ----------------------------- *)

Lemma phaseNcp_is_min_witness :
  Ncp.phaseNcp_ id Demo.typeTag DemoMore.elemCtxSame 1 0 0 =
  Num.min (Ncp.phasePresentIneq_ Demo.fs_open 0)
          (Ncp.phaseNotPresentIneq_ Demo.typeTag Demo.fs_open 0).
Proof.
have same : Ncp.evalPointVolVars DemoMore.elemCtxSame 1 0 =
            Ncp.volVars DemoMore.elemCtxSame 1 0 by [].
by have [] :=
  @phaseNcp_is_min _ _ _ id _ Demo.typeTag DemoMore.elemCtxSame 1 0 0 same.
Defined.

Lemma phaseNcp_complementarity_witness :
  (Ncp.phaseNcp_ id Demo.typeTag DemoMore.elemCtxSame 0 0 0 == 0) =
  [&& 0 <= Ncp.phasePresentIneq_ Demo.fs_full 0,
      0 <= Ncp.phaseNotPresentIneq_ Demo.typeTag Demo.fs_full 0
    & Ncp.phasePresentIneq_ Demo.fs_full 0 *
      Ncp.phaseNotPresentIneq_ Demo.typeTag Demo.fs_full 0 == 0].
Proof.
have same : Ncp.evalPointVolVars DemoMore.elemCtxSame 0 0 =
            Ncp.volVars DemoMore.elemCtxSame 0 0 by [].
exact: (@phaseNcp_complementarity _ _ _ id _ Demo.typeTag
          DemoMore.elemCtxSame 0 0 0 same).
Defined.

Lemma phaseNotPresentIneq_frame_witness :
  Ncp.phaseNotPresentIneq_ Demo.typeTag Demo.fs_full 0 =
  Ncp.phaseNotPresentIneq_ Demo.typeTag DemoMore.fs_full' 0.
Proof.
apply: phaseNotPresentIneq_frame => i lt_i /=.
by rw lt_i.
Defined.

Lemma eval_nothing_to_overwrite_witness :
  Ncp.eval id Demo.typeTag [::] [::] DemoMore.elemCtxEmpty =
  Ncp.ParentType_eval Demo.typeTag [::] [::] DemoMore.elemCtxEmpty.
Proof. by apply: eval_nothing_to_overwrite; left. Defined.

Lemma addPhaseStorage_current_time_witness :
  Ncp.addPhaseStorage DemoMore.extrusionFactor Demo.typeTag 0 Demo.elemCtx 0 =
    Ncp.addPhaseStorage DemoMore.extrusionFactor Demo.typeTag 0
      DemoMore.elemCtxPrev 0
  /\ Ncp.addPhaseStorage DemoMore.extrusionFactor Demo.typeTag (const_mx 1)
       DemoMore.elemCtxEmpty 0 = const_mx 1.
Proof.
split.
- have same_n : Ncp.numScv Demo.elemCtx = Ncp.numScv DemoMore.elemCtxPrev by [].
  have [] // := addPhaseStorage_current_time DemoMore.extrusionFactor
                  Demo.typeTag 0 0 same_n.
- have same_n : Ncp.numScv DemoMore.elemCtxEmpty =
                Ncp.numScv DemoMore.elemCtxEmpty by [].
  have [] // := addPhaseStorage_current_time DemoMore.extrusionFactor
                  Demo.typeTag (const_mx 1) 0 same_n.
Defined.

End NcpExtra.

Module LensExtra.
Section LensExtra.

Variable Scalar : realFieldType.
Variable numEq : nat.
Variables konti transport : 'I_numEq.
Variable ParentType : Type.
Variable base : Lens.ParentMembers Scalar numEq ParentType.

Local Abbreviation SolutionFunction := (Lens.SolutionFunction Scalar numEq).
Local Abbreviation Controller :=
  (Lens.LensOnePTwoCNewtonController Scalar ParentType).
Local Abbreviation newtonEndStep := (Lens.newtonEndStep konti transport base).
Local Abbreviation newtonConverged := (Lens.newtonConverged base).
Local Abbreviation suggestTimeStepSize := (Lens.suggestTimeStepSize base).
Local Abbreviation defectP := (Lens.defectP konti).
Local Abbreviation defectTrans := (Lens.defectTrans transport).
Local Abbreviation defect :=
  (fun u uOld i => Num.max (defectP u uOld i) (defectTrans u uOld i)).
Local Abbreviation relDefect_spec := (Lens.relDefect_spec konti transport).
Local Abbreviation reachable_from := (LensRun.reachable_from konti transport base).
Local Abbreviation relDefectE :=
  (LensTheory.relDefect_newtonEndStep konti transport base).

Implicit Types (c : Controller) (u uOld : SolutionFunction).

(* --- the largest element of a list ----------------------------------- *)

Lemma bigmax_cat (I : Type) (F : I -> Scalar) (r1 r2 : seq I) :
  \big[Num.max/0]_(i <- r1 ++ r2) F i =
  Num.max (\big[Num.max/0]_(i <- r1) F i) (\big[Num.max/0]_(i <- r2) F i).
Proof.
elim: r1 => [|i r1 IHr1] /=; last by rw !big_cons IHr1 maxA.
by rw big_nil; apply/esym/max_idPr/bigmax_ge_id.
Qed.

(* --- the two quotients ----------------------------------------------- *)

Lemma defect_sym u uOld i : defect u uOld i = defect uOld u i.
Proof.
rw /Lens.defectP /Lens.defectTrans /Lens.normP /Lens.normTrans.
by rw (distrC (Lens.at_ u i konti)) (distrC (Lens.at_ u i transport))
      (maxC `|Lens.at_ u i konti|) (maxC `|Lens.at_ u i transport|).
Qed.

(** X12.  The relative defect does not tell the new iterate from the old
    one: for two solutions of the same length, newtonEndStep (u, uOld)
    and newtonEndStep (uOld, u) leave the same relDefect_. *)
Theorem relDefect_symmetric c u uOld :
  size u = size uOld ->
  Lens.relDefect_ (newtonEndStep c u uOld) =
  Lens.relDefect_ (newtonEndStep c uOld u).
Proof.
move=> same_size; rw !relDefectE /Lens.relDefect_spec same_size.
by apply: eq_bigr => i _; exact: defect_sym.
Qed.

(** X13.  The relative defect of a solution split into two parts is the
    larger of the relative defects of the parts; in particular further
    degrees of freedom never lower it. *)
Theorem relDefect_cat c u1 uOld1 u2 uOld2 :
  size u1 = size uOld1 ->
  let whole := Lens.relDefect_ (newtonEndStep c (u1 ++ u2) (uOld1 ++ uOld2)) in
  whole = Num.max (Lens.relDefect_ (newtonEndStep c u1 uOld1))
                  (Lens.relDefect_ (newtonEndStep c u2 uOld2))
  /\ Lens.relDefect_ (newtonEndStep c u1 uOld1) <= whole.
Proof.
move=> same_size whole.
have -> : whole = Num.max (Lens.relDefect_ (newtonEndStep c u1 uOld1))
                          (Lens.relDefect_ (newtonEndStep c u2 uOld2)).
  rw /whole !relDefectE /Lens.relDefect_spec /index_iota !subn0.
  rw size_cat iotaD bigmax_cat add0n -[size u1]addn0 iotaDl big_map addn0.
  congr (Num.max _ _).
    apply: eq_big_seq => i; rw mem_iota add0n /= => lt_i.
    rw /Lens.defectP /Lens.defectTrans /Lens.normP /Lens.normTrans /Lens.at_.
    by rw !nth_cat -same_size lt_i.
  apply: eq_bigr => i _.
  rw /Lens.defectP /Lens.defectTrans /Lens.normP /Lens.normTrans /Lens.at_.
  by rw !nth_cat -same_size ltnNge leq_addr /= addKn.
by split=> //; rw le_max lexx.
Qed.

(** X14.  No member changes maxTimeStepSize_: in every state reached from
    a controller it is the value of that controller, and no suggested
    time step exceeds it; after the constructor it is the value read
    from the interface file. *)
Theorem maxTimeStepSize_is_fixed c0 c oldTimeStep :
  reachable_from c0 c ->
  [/\ Lens.maxTimeStepSize_ c = Lens.maxTimeStepSize_ c0,
      suggestTimeStepSize c oldTimeStep <= Lens.maxTimeStepSize_ c0
    & forall parent0 ipp,
        c0 = Lens.construct base parent0 ipp ->
        suggestTimeStepSize c oldTimeStep <= ipp].
Proof.
move=> reach.
have fixed : Lens.maxTimeStepSize_ c = Lens.maxTimeStepSize_ c0.
  by elim: reach => // c' u uOld _ <-.
have bound : suggestTimeStepSize c oldTimeStep <= Lens.maxTimeStepSize_ c0.
  by rw -fixed /Lens.suggestTimeStepSize StdTheory.minE ge_min lexx.
by split=> // parent0 ipp eq_c0; rw eq_c0 in bound.
Qed.

End LensExtra.

(* --- the statements above at concrete data ----------------------------- *)

Lemma relDefect_symmetric_witness :
  Lens.relDefect_
    (Lens.newtonEndStep Demo.konti Demo.transport Demo.base
       Demo.controller Demo.u Demo.uOld) =
  Lens.relDefect_
    (Lens.newtonEndStep Demo.konti Demo.transport Demo.base
       Demo.controller Demo.uOld Demo.u).
Proof. by apply: relDefect_symmetric. Defined.

Lemma relDefect_cat_witness :
  Lens.relDefect_
    (Lens.newtonEndStep Demo.konti Demo.transport Demo.base Demo.controller
       (Demo.u ++ DemoMore.u2) (Demo.uOld ++ DemoMore.uOld2)) =
  Num.max
    (Lens.relDefect_
       (Lens.newtonEndStep Demo.konti Demo.transport Demo.base
          Demo.controller Demo.u Demo.uOld))
    (Lens.relDefect_
       (Lens.newtonEndStep Demo.konti Demo.transport Demo.base
          Demo.controller DemoMore.u2 DemoMore.uOld2)).
Proof.
have same_size : size Demo.u = size Demo.uOld by [].
by have [] :=
  relDefect_cat Demo.konti Demo.transport Demo.base Demo.controller
    DemoMore.u2 DemoMore.uOld2 same_size.
Defined.

Lemma maxTimeStepSize_is_fixed_witness :
  Lens.suggestTimeStepSize Demo.base
    (Lens.newtonEndStep Demo.konti Demo.transport Demo.base
       (Lens.construct Demo.base 0 10%:R) Demo.u Demo.uOld) 7%:R <= 10%:R.
Proof.
have reach :
  LensRun.reachable_from Demo.konti Demo.transport Demo.base
    (Lens.construct Demo.base 0 10%:R)
    (Lens.newtonEndStep Demo.konti Demo.transport Demo.base
       (Lens.construct Demo.base 0 10%:R) Demo.u Demo.uOld).
  by apply: LensRun.from_newtonEndStep; exact: LensRun.from_start.
have [_ _ bound] := maxTimeStepSize_is_fixed 7%:R reach.
exact: (bound 0 10%:R).
Defined.

End LensExtra.
